(** * Student Directory Service (app.py): model and verified properties

    The service is a set of five FastAPI handlers over one SQL table,
    [students(id PK, first_name, last_name, email UNIQUE, dob NULLABLE)].
    The table is modelled as the list of its rows in storage order, the
    handlers as computations in a state-and-exception monad over that
    table, and the framework as the function that turns a handler outcome
    into an HTTP response.

    Modelling conventions.
    - Keys are Python integers, hence [Z]. The driver binds a key as a
      signed 64-bit integer: [serve] is the service on keys that have been
      bound, [handle] adds the binding and what the handlers do when it
      fails, and [app] adds the validation that precedes the handlers.
    - The store is given keys by [Store.next_id] as long as the largest
      key in use is below the largest key there is; what the store does
      beyond is not represented, and statements on the value of a new key
      carry that bound as a hypothesis.
    - A handler receives an already validated [StudentCreate]; the schema
      validation that precedes it is the separate function [validate].
    - [db.add]/attribute assignment/[db.delete] followed by [db.commit] is
      one SQL statement executed atomically: it either changes the table
      or raises [IntegrityError] and leaves the table as it was. *)

From Stdlib Require Import ZArith List Ascii String Bool Lia Sorted.
Import ListNotations.
Local Open Scope string_scope.
Local Open Scope list_scope.
Local Open Scope Z_scope.

(** ** Data model *)

(** [datetime.date]. *)
Record date := mkDate { year : Z; month : Z; day : Z }.

(** [class StudentModel(Base)]: one row of the table. *)
Record StudentModel := mkStudentModel {
  id : Z;
  first_name : string;
  last_name : string;
  email : string;
  dob : option date
}.

(** [class StudentCreate(BaseModel)]: a validated request body. *)
Record StudentCreate := mkStudentCreate {
  c_first_name : string;
  c_last_name : string;
  c_email : string;
  c_dob : option date
}.

(** [class StudentRead(StudentCreate)]: a response body, read from a row
    ([orm_mode = True]). *)
Record StudentRead := mkStudentRead {
  r_first_name : string;
  r_last_name : string;
  r_email : string;
  r_dob : option date;
  r_id : Z
}.

Definition from_orm (s : StudentModel) : StudentRead :=
  mkStudentRead (first_name s) (last_name s) (email s) (dob s) (id s).

(** The contents of the [students] table. *)
Definition Table := list StudentModel.

(** ** The store *)

Module Store.

(** [db.query(StudentModel).filter(StudentModel.email == e).first()] *)
Definition query_email_first (e : string) (t : Table) : option StudentModel :=
  find (fun s => String.eqb (email s) e) t.

(** [db.get(StudentModel, i)], once the key [i] has been bound: the SELECT
    by primary key. *)
Definition get (i : Z) (t : Table) : option StudentModel :=
  find (fun s => Z.eqb (id s) i) t.

(** [db.query(StudentModel).all()] *)
Definition all (t : Table) : list StudentModel := t.

(** Largest key in use, [None] on the empty table. *)
Fixpoint max_id (t : Table) : option Z :=
  match t with
  | [] => None
  | s :: t' =>
      match max_id t' with
      | None => Some (id s)
      | Some m => Some (Z.max (id s) m)
      end
  end.

(** Key given to an inserted row whose [id] is left unset: one more than
    the largest key in use, and 1 on an empty table. This is what the
    store does while the largest key in use is below [max_rowid]. *)
Definition next_id (t : Table) : Z :=
  match max_id t with
  | None => 1
  | Some m => m + 1
  end.

(** The UNIQUE index on [email], as seen by a row of key [i] that is
    about to carry [e]: some row of another key already carries [e]. *)
Definition email_taken_by_other (e : string) (i : Z) (t : Table) : bool :=
  existsb (fun s => negb (Z.eqb (id s) i) && String.eqb (email s) e) t.

(** The PRIMARY KEY index on [id]. *)
Definition id_taken (i : Z) (t : Table) : bool :=
  existsb (fun s => Z.eqb (id s) i) t.

(** [INSERT INTO students (first_name, last_name, email, dob)]: [None]
    when a constraint rejects the row, otherwise the new table and the
    key of the new row. *)
Definition insert (p : StudentCreate) (t : Table) : option (Table * Z) :=
  let i := next_id t in
  if id_taken i t || email_taken_by_other (c_email p) i t then None
  else Some (t ++ [mkStudentModel i (c_first_name p) (c_last_name p)
                                  (c_email p) (c_dob p)], i).

Definition set_fields (p : StudentCreate) (s : StudentModel) : StudentModel :=
  mkStudentModel (id s) (c_first_name p) (c_last_name p) (c_email p) (c_dob p).

(** [UPDATE students SET first_name, last_name, email, dob WHERE id = i] *)
Definition update (i : Z) (p : StudentCreate) (t : Table) : option Table :=
  if email_taken_by_other (c_email p) i t then None
  else Some (map (fun s => if Z.eqb (id s) i then set_fields p s else s) t).

(** [DELETE FROM students WHERE id = i] *)
Definition delete (i : Z) (t : Table) : Table :=
  filter (fun s => negb (Z.eqb (id s) i)) t.

End Store.

(** ** Keys the driver can bind

    The key column is a signed 64-bit integer. A Python integer outside
    that range cannot be bound as a parameter of a statement: the driver
    raises [OverflowError] before the statement runs. *)

Definition min_rowid : Z := - 2 ^ 63.
Definition max_rowid : Z := 2 ^ 63 - 1.

Definition key_in_range (i : Z) : bool :=
  (min_rowid <=? i) && (i <=? max_rowid).

(** ** Handlers: a state-and-exception monad over the table *)

Inductive Exn :=
| HTTPException (status_code : Z) (detail : string)
| IntegrityError
| InvalidRequestError
| OverflowError.

Inductive Outcome (A : Type) :=
| Return (a : A)
| Raise (e : Exn).
Arguments Return {A} a.
Arguments Raise {A} e.

Definition Session (A : Type) := Table -> Outcome A * Table.

Definition ret {A} (a : A) : Session A := fun t => (Return a, t).
Definition raise {A} (e : Exn) : Session A := fun t => (Raise e, t).
Definition bind {A B} (m : Session A) (k : A -> Session B) : Session B :=
  fun t => match m t with
           | (Return a, t') => k a t'
           | (Raise e, t') => (Raise e, t')
           end.

Notation "x <- m ;; k" := (bind m (fun x => k))
  (at level 61, m at next level, right associativity).
Notation "m ;;; k" := (bind m (fun _ => k))
  (at level 61, right associativity).

Module Db.

(** Binding of the key [i] as a parameter of a statement. *)
Definition bind_key (i : Z) : Session unit :=
  fun t => if key_in_range i then (Return tt, t) else (Raise OverflowError, t).

Definition query_email_first (e : string) : Session (option StudentModel) :=
  fun t => (Return (Store.query_email_first e t), t).

Definition get (i : Z) : Session (option StudentModel) :=
  fun t => (Return (Store.get i t), t).

Definition all : Session (list StudentModel) :=
  fun t => (Return (Store.all t), t).

(** [db.add(student); db.commit()]: the pending object is flushed by an
    INSERT and receives its key. *)
Definition add_commit (p : StudentCreate) : Session Z :=
  fun t => match Store.insert p t with
           | Some (t', i) => (Return i, t')
           | None => (Raise IntegrityError, t)
           end.

(** Assignment of the four attributes of the object of key [i], then
    [db.commit()]. *)
Definition assign_commit (i : Z) (p : StudentCreate) : Session unit :=
  fun t => match Store.update i p t with
           | Some t' => (Return tt, t')
           | None => (Raise IntegrityError, t)
           end.

(** [db.delete(student); db.commit()] *)
Definition delete_commit (i : Z) : Session unit :=
  fun t => (Return tt, Store.delete i t).

(** [db.refresh(student)]: the row is read again by its key. *)
Definition refresh (i : Z) : Session StudentModel :=
  fun t => match Store.get i t with
           | Some s => (Return s, t)
           | None => (Raise InvalidRequestError, t)
           end.

End Db.

(** [create_student], app.py lines 70-85. *)
Definition create_student (payload : StudentCreate) : Session StudentModel :=
  exists_ <- Db.query_email_first (c_email payload) ;;
  match exists_ with
  | Some _ => raise (HTTPException 400 "Email already registered")
  | None =>
      i <- Db.add_commit payload ;;
      student <- Db.refresh i ;;
      ret student
  end.

(** [list_students], app.py lines 89-92. *)
Definition list_students : Session (list StudentModel) :=
  students <- Db.all ;;
  ret students.

(** [get_student], app.py lines 96-101. *)
Definition get_student (student_id : Z) : Session StudentModel :=
  student <- Db.get student_id ;;
  match student with
  | None => raise (HTTPException 404 "Student not found")
  | Some s => ret s
  end.

(** [update_student], app.py lines 105-117. *)
Definition update_student (student_id : Z) (payload : StudentCreate)
  : Session StudentModel :=
  student <- Db.get student_id ;;
  match student with
  | None => raise (HTTPException 404 "Student not found")
  | Some s =>
      Db.assign_commit (id s) payload ;;;
      s' <- Db.refresh (id s) ;;
      ret s'
  end.

(** [delete_student], app.py lines 121-128. *)
Definition delete_student (student_id : Z) : Session unit :=
  student <- Db.get student_id ;;
  match student with
  | None => raise (HTTPException 404 "Student not found")
  | Some s =>
      Db.delete_commit (id s) ;;;
      ret tt
  end.

(** ** The HTTP surface *)

Inductive Body :=
| Empty
| One (s : StudentRead)
| Many (l : list StudentRead)
| Detail (msg : string).

Record Response := mkResponse { status : Z; body : Body }.

(** What the framework sends for a handler outcome: the route's declared
    status on return, the exception's own status for an [HTTPException],
    500 for any other exception. *)
Definition respond {A} (success : Z) (render : A -> Body) (o : Outcome A)
  : Response :=
  match o with
  | Return a => mkResponse success (render a)
  | Raise (HTTPException c d) => mkResponse c (Detail d)
  | Raise _ => mkResponse 500 (Detail "Internal Server Error")
  end.

Definition route {A} (success : Z) (render : A -> Body) (h : Session A)
  (t : Table) : Response * Table :=
  let (o, t') := h t in (respond success render o, t').

(** A request whose body, if any, has passed validation. *)
Inductive Request :=
| POST_students (payload : StudentCreate)
| GET_students
| GET_student (student_id : Z)
| PUT_student (student_id : Z) (payload : StudentCreate)
| DELETE_student (student_id : Z).

Definition serve (q : Request) : Table -> Response * Table :=
  match q with
  | POST_students p => route 201 (fun s => One (from_orm s)) (create_student p)
  | GET_students => route 200 (fun l => Many (map from_orm l)) list_students
  | GET_student i => route 200 (fun s => One (from_orm s)) (get_student i)
  | PUT_student i p => route 200 (fun s => One (from_orm s)) (update_student i p)
  | DELETE_student i => route 204 (fun _ => Empty) (delete_student i)
  end.

(** The first statement of [get_student], [update_student] and
    [delete_student] is [db.get(StudentModel, student_id)]: the key is
    bound, then the row is looked up. *)
Definition bound {A} (student_id : Z) (h : Session A) : Session A :=
  Db.bind_key student_id ;;; h.

(** The handlers as they run on the driver: [serve] behind the binding of
    the key. Creation and listing bind no key of the request. *)
Definition handle (q : Request) : Table -> Response * Table :=
  match q with
  | POST_students p => serve (POST_students p)
  | GET_students => serve GET_students
  | GET_student i =>
      route 200 (fun s => One (from_orm s)) (bound i (get_student i))
  | PUT_student i p =>
      route 200 (fun s => One (from_orm s)) (bound i (update_student i p))
  | DELETE_student i =>
      route 204 (fun _ => Empty) (bound i (delete_student i))
  end.

(** States the service can be in: the empty table, and whatever a request
    leaves behind. *)
Inductive reachable : Table -> Prop :=
| reachable_empty : reachable []
| reachable_step q t : reachable t -> reachable (snd (serve q t)).

(** The table after a sequence of requests. *)
Definition run (qs : list Request) (t : Table) : Table :=
  fold_left (fun t q => snd (serve q t)) qs t.

(** ** Request validation *)

(** The two parsers of the schema library that [StudentCreate] relies on:
    [EmailStr] (the accepted address, or nothing for a malformed one) and
    [date]. *)
Class Parsers := {
  parse_email : string -> option string;
  parse_date : string -> option date
}.

(** A JSON request body: each key holds a string, or is absent or null
    ([None]); values of other JSON types are not represented. *)
Record RawBody := mkRawBody {
  raw_first_name : option string;
  raw_last_name : option string;
  raw_email : option string;
  raw_dob : option string
}.

(** Validation of a body against [StudentCreate]: [first_name],
    [last_name] and [email] are required, [dob] defaults to [None]. *)
Definition validate `{Parsers} (b : RawBody) : option StudentCreate :=
  match raw_first_name b, raw_last_name b, raw_email b with
  | Some f, Some l, Some e =>
      match parse_email e with
      | None => None
      | Some e' =>
          match raw_dob b with
          | None => Some (mkStudentCreate f l e' None)
          | Some d =>
              match parse_date d with
              | None => None
              | Some d' => Some (mkStudentCreate f l e' (Some d'))
              end
          end
      end
  | _, _, _ => None
  end.

(** The last segment of the path [/students/{student_id}]: the writing of
    an integer, or some other text. *)
Inductive PathId :=
| IntId (z : Z)
| OtherId (text : string).

Coercion IntId : Z >-> PathId.

(** Validation of the segment against [student_id: int]. *)
Definition path_int (i : PathId) : option Z :=
  match i with
  | IntId z => Some z
  | OtherId _ => None
  end.

Inductive RawRequest :=
| RawPOST_students (b : RawBody)
| RawGET_students
| RawGET_student (student_id : PathId)
| RawPUT_student (student_id : PathId) (b : RawBody)
| RawDELETE_student (student_id : PathId).

Definition unprocessable : Response :=
  mkResponse 422 (Detail "Unprocessable Entity").

(** The application as the client sees it: a path segment or a body that
    fails validation is answered with 422 and the handler is not called. *)
Definition app `{Parsers} (q : RawRequest) (t : Table) : Response * Table :=
  match q with
  | RawPOST_students b =>
      match validate b with
      | Some p => handle (POST_students p) t
      | None => (unprocessable, t)
      end
  | RawGET_students => handle GET_students t
  | RawGET_student i =>
      match path_int i with
      | Some z => handle (GET_student z) t
      | None => (unprocessable, t)
      end
  | RawPUT_student i b =>
      match validate b, path_int i with
      | Some p, Some z => handle (PUT_student z p) t
      | _, _ => (unprocessable, t)
      end
  | RawDELETE_student i =>
      match path_int i with
      | Some z => handle (DELETE_student z) t
      | None => (unprocessable, t)
      end
  end.

(** ** Predicates of the specification *)

Definition emails_unique (t : Table) : Prop := NoDup (map email t).
Definition ids_unique (t : Table) : Prop := NoDup (map id t).

(** A body is invalid in the sense of the specification. *)
Definition invalid_body `{Parsers} (b : RawBody) : Prop :=
  raw_first_name b = None \/ raw_last_name b = None \/ raw_email b = None \/
  (exists e, raw_email b = Some e /\ parse_email e = None).

(** The row an INSERT of [p] adds to [t]. *)
Definition new_row (p : StudentCreate) (t : Table) : StudentModel :=
  mkStudentModel (Store.next_id t) (c_first_name p) (c_last_name p)
                 (c_email p) (c_dob p).

(** The validated body a row would be written from. *)
Definition fields_of (s : StudentModel) : StudentCreate :=
  mkStudentCreate (first_name s) (last_name s) (email s) (dob s).

Definition not_found : Response :=
  mkResponse 404 (Detail "Student not found").

Definition internal_error : Response :=
  mkResponse 500 (Detail "Internal Server Error").

(** ** Sample data *)

Definition ada : StudentCreate :=
  mkStudentCreate "Ada" "Lovelace" "ada@example.com" None.

Definition bob : StudentCreate :=
  mkStudentCreate "Bob" "Stone" "bob@example.com" (Some (mkDate 2001 2 3)).

(** Bob's form resubmitted with Ada's address. *)
Definition bob_as_ada : StudentCreate :=
  mkStudentCreate "Bob" "Stone" "ada@example.com" (Some (mkDate 2001 2 3)).

(** Bob's form resubmitted with another date of birth only. *)
Definition bob_new_dob : StudentCreate :=
  mkStudentCreate "Bob" "Stone" "bob@example.com" (Some (mkDate 2001 3 2)).

Definition cy : StudentCreate :=
  mkStudentCreate "Cy" "Young" "cy@example.com" None.

(** The table after Ada, then Bob, have been created in an empty store. *)
Definition two_students : Table :=
  run [POST_students ada; POST_students bob] [].

(** A stand-in for the schema library's parsers: an address is accepted as
    it is when it contains an at sign, and no date is accepted. *)
Fixpoint has_at (s : string) : bool :=
  match s with
  | EmptyString => false
  | String c s' => Ascii.eqb c "@"%char || has_at s'
  end.

Definition sample_parsers : Parsers :=
  {| parse_email := fun s => if has_at s then Some s else None;
     parse_date := fun _ => None |}.

(** A body without [last_name]. *)
Definition nameless_body : RawBody :=
  mkRawBody (Some "Ada") None (Some "ada@example.com") None.

(** The answer to a successful read or update of the row [s]. *)
Definition ok_one (s : StudentModel) : Response :=
  mkResponse 200 (One (from_orm s)).

(** The rewriting an accepted UPDATE of key [i] applies to each row. *)
Definition rewrite_row (i : Z) (p : StudentCreate) (r : StudentModel)
  : StudentModel :=
  if id r =? i then Store.set_fields p r else r.

(** Keys grow along the storage order. *)
Definition keys_ascending (t : Table) : Prop :=
  StronglySorted Z.lt (map id t).

(** Every stored key is below the largest key there is. *)
Definition below_top_key (t : Table) : Prop :=
  forall r, In r t -> id r < max_rowid.

(** The smallest integer above the range of keys. *)
Definition huge_id : Z := 2 ^ 63.


(** ** Facts about the store *)

Lemma max_id_bound (t : Table) (s : StudentModel) :
  In s t -> exists m, Store.max_id t = Some m /\ id s <= m.
Proof.
  induction t as [|a t IH]; simpl; [tauto|].
  intros [->|Hin].
  - destruct (Store.max_id t) as [m|]; eexists; split; eauto; lia.
  - destruct (IH Hin) as (m & -> & Hle). eexists; split; eauto. lia.
Qed.

Lemma next_id_above (t : Table) (s : StudentModel) :
  In s t -> id s < Store.next_id t.
Proof.
  intros Hin. destruct (max_id_bound t s Hin) as (m & Hm & Hle).
  unfold Store.next_id. rewrite Hm. lia.
Qed.

Lemma next_id_fresh (t : Table) : ~ In (Store.next_id t) (map id t).
Proof.
  rewrite in_map_iff. intros (s & Heq & Hin).
  apply next_id_above in Hin. lia.
Qed.

Lemma id_taken_false (i : Z) (t : Table) :
  ~ In i (map id t) -> Store.id_taken i t = false.
Proof.
  intros Hn. unfold Store.id_taken.
  destruct (existsb _ t) eqn:E; [|reflexivity].
  apply existsb_exists in E. destruct E as (s & Hin & Heq).
  apply Z.eqb_eq in Heq. exfalso. apply Hn. rewrite <- Heq. now apply in_map.
Qed.

Lemma email_taken_false (e : string) (i : Z) (t : Table) :
  (forall s, In s t -> id s <> i -> email s <> e) ->
  Store.email_taken_by_other e i t = false.
Proof.
  intros Hn. unfold Store.email_taken_by_other.
  destruct (existsb _ t) eqn:E; [|reflexivity].
  apply existsb_exists in E. destruct E as (s & Hin & Heq).
  apply andb_true_iff in Heq. destruct Heq as [Hid Hem].
  apply negb_true_iff, Z.eqb_neq in Hid. apply String.eqb_eq in Hem.
  exfalso. exact (Hn s Hin Hid Hem).
Qed.

Lemma email_taken_false_inv (e : string) (i : Z) (t : Table) (s : StudentModel) :
  Store.email_taken_by_other e i t = false ->
  In s t -> id s <> i -> email s <> e.
Proof.
  unfold Store.email_taken_by_other. intros E Hin Hid Hem.
  assert (X : existsb (fun s => negb (id s =? i) && (email s =? e)%string) t = true).
  { apply existsb_exists. exists s. split; [assumption|].
    apply andb_true_iff. split.
    - now apply negb_true_iff, Z.eqb_neq.
    - now apply String.eqb_eq. }
  congruence.
Qed.

Lemma query_email_none (e : string) (t : Table) :
  ~ In e (map email t) -> Store.query_email_first e t = None.
Proof.
  intros Hn. unfold Store.query_email_first.
  destruct (find _ t) as [s|] eqn:E; [|reflexivity].
  apply find_some in E. destruct E as [Hin Heq].
  apply String.eqb_eq in Heq. exfalso. apply Hn. rewrite <- Heq. now apply in_map.
Qed.

Lemma query_email_some (e : string) (t : Table) :
  In e (map email t) -> exists s, Store.query_email_first e t = Some s.
Proof.
  rewrite in_map_iff. intros (s & Heq & Hin). unfold Store.query_email_first.
  destruct (find _ t) as [s'|] eqn:E; [eauto|].
  exfalso. apply (find_none _ _ E) in Hin. simpl in Hin.
  apply String.eqb_neq in Hin. congruence.
Qed.

Lemma query_email_none_inv (e : string) (t : Table) :
  Store.query_email_first e t = None -> ~ In e (map email t).
Proof.
  intros E Hin. destruct (query_email_some e t Hin) as [s Hs]. congruence.
Qed.

Lemma get_none (i : Z) (t : Table) :
  ~ In i (map id t) -> Store.get i t = None.
Proof.
  intros Hn. unfold Store.get.
  destruct (find _ t) as [s|] eqn:E; [|reflexivity].
  apply find_some in E. destruct E as [Hin Heq].
  apply Z.eqb_eq in Heq. exfalso. apply Hn. rewrite <- Heq. now apply in_map.
Qed.

Lemma get_some (i : Z) (t : Table) :
  In i (map id t) -> exists s, Store.get i t = Some s /\ In s t /\ id s = i.
Proof.
  rewrite in_map_iff. intros (s & Heq & Hin). unfold Store.get.
  destruct (find _ t) as [s'|] eqn:E.
  - apply find_some in E. destruct E as [Hin' Heq'].
    apply Z.eqb_eq in Heq'. eauto.
  - exfalso. apply (find_none _ _ E) in Hin. simpl in Hin.
    apply Z.eqb_neq in Hin. congruence.
Qed.

Lemma get_in (i : Z) (t : Table) (s : StudentModel) :
  Store.get i t = Some s -> In s t /\ id s = i.
Proof.
  unfold Store.get. intros E. apply find_some in E.
  destruct E as [Hin Heq]. apply Z.eqb_eq in Heq. tauto.
Qed.

Lemma get_app_new (i : Z) (t : Table) (s : StudentModel) :
  ~ In i (map id t) -> id s = i -> Store.get i (t ++ [s]) = Some s.
Proof.
  intros Hn Hid. unfold Store.get.
  induction t as [|a t IH]; simpl.
  - rewrite Hid, Z.eqb_refl. reflexivity.
  - simpl in Hn. destruct (Z.eqb_spec (id a) i) as [E|E]; [tauto|].
    apply IH. tauto.
Qed.

Lemma get_unique (t : Table) (s : StudentModel) :
  ids_unique t -> In s t -> Store.get (id s) t = Some s.
Proof.
  unfold ids_unique, Store.get.
  induction t as [|a t IH]; simpl; [tauto|].
  intros Hnd Hin. inversion Hnd as [|x l Hx Hl]; subst.
  destruct Hin as [->|Hin].
  - now rewrite Z.eqb_refl.
  - destruct (Z.eqb_spec (id a) (id s)) as [E|E].
    + exfalso. apply Hx. rewrite E. now apply in_map.
    + now apply IH.
Qed.

(** ** The handlers, case by case *)

Lemma insert_fresh_email (p : StudentCreate) (t : Table) :
  ~ In (c_email p) (map email t) ->
  Store.insert p t = Some (t ++ [new_row p t], Store.next_id t).
Proof.
  intros Hn. unfold Store.insert.
  rewrite (id_taken_false _ _ (next_id_fresh t)).
  rewrite email_taken_false; [reflexivity|].
  intros s Hin _ Heq. apply Hn. rewrite <- Heq. now apply in_map.
Qed.

Lemma create_student_fresh (p : StudentCreate) (t : Table) :
  ~ In (c_email p) (map email t) ->
  create_student p t = (Return (new_row p t), t ++ [new_row p t]).
Proof.
  intros Hn. unfold create_student, bind, Db.query_email_first.
  rewrite (query_email_none _ _ Hn).
  unfold Db.add_commit. rewrite (insert_fresh_email _ _ Hn).
  unfold Db.refresh.
  rewrite (get_app_new _ _ (new_row p t) (next_id_fresh t) eq_refl).
  reflexivity.
Qed.

Lemma create_student_taken (p : StudentCreate) (t : Table) :
  In (c_email p) (map email t) ->
  create_student p t = (Raise (HTTPException 400 "Email already registered"), t).
Proof.
  intros Hin. unfold create_student, bind, Db.query_email_first.
  destruct (query_email_some _ _ Hin) as [s ->]. reflexivity.
Qed.

Lemma get_student_found (i : Z) (t : Table) (s : StudentModel) :
  Store.get i t = Some s -> get_student i t = (Return s, t).
Proof.
  intros E. unfold get_student, bind, Db.get. now rewrite E.
Qed.

Lemma get_student_missing (i : Z) (t : Table) :
  Store.get i t = None ->
  get_student i t = (Raise (HTTPException 404 "Student not found"), t).
Proof.
  intros E. unfold get_student, bind, Db.get. now rewrite E.
Qed.



(** C3. When some stored row carries the email of the payload, creation is
    answered with 400 and the table is left exactly as it was. *)
Theorem create_duplicate_email_conflict (t : Table) (p : StudentCreate) :
  In (c_email p) (map email t) ->
  serve (POST_students p) t
    = (mkResponse 400 (Detail "Email already registered"), t).
Proof.
  intros Hin. simpl. unfold route.
  now rewrite (create_student_taken _ _ Hin).
Qed.

Lemma create_duplicate_email_conflict_witness :
  In (c_email bob_as_ada) (map email two_students) /\
  serve (POST_students bob_as_ada) two_students
    = (mkResponse 400 (Detail "Email already registered"), two_students).
Proof.
  assert (Hin : In (c_email bob_as_ada) (map email two_students)).
  { vm_compute. tauto. }
  split; [exact Hin|].
  exact (create_duplicate_email_conflict two_students bob_as_ada Hin).
Defined.

Lemma serve_missing_id (t : Table) (i : Z) (p : StudentCreate) :
  ~ In i (map id t) ->
  serve (GET_student i) t = (not_found, t) /\
  serve (PUT_student i p) t = (not_found, t) /\
  serve (DELETE_student i) t = (not_found, t).
Proof.
  intros Hn. pose proof (get_none _ _ Hn) as E.
  simpl. unfold route, get_student, update_student, delete_student, bind, Db.get.
  rewrite E. simpl. auto.
Qed.

Lemma get_after_update (i : Z) (p : StudentCreate) (t : Table) (s : StudentModel) :
  Store.get i t = Some s ->
  Store.get i (map (fun r => if id r =? i then Store.set_fields p r else r) t)
    = Some (Store.set_fields p s).
Proof.
  unfold Store.get. induction t as [|a t IH]; simpl; [discriminate|].
  destruct (Z.eqb_spec (id a) i) as [E|E]; simpl.
  - intros [= ->]. now rewrite E, Z.eqb_refl.
  - apply Z.eqb_neq in E. now rewrite E.
Qed.

Lemma update_student_found (i : Z) (p : StudentCreate) (t : Table) (s : StudentModel) :
  Store.get i t = Some s ->
  Store.email_taken_by_other (c_email p) i t = false ->
  update_student i p t
    = (Return (Store.set_fields p s),
       map (fun r => if id r =? i then Store.set_fields p r else r) t).
Proof.
  intros Hget Hfree. destruct (get_in _ _ _ Hget) as [_ Hid].
  unfold update_student, bind, Db.get. rewrite Hget.
  unfold Db.assign_commit, Store.update. rewrite Hid, Hfree.
  unfold Db.refresh. now rewrite (get_after_update _ _ _ _ Hget).
Qed.

Lemma update_student_clash (i : Z) (p : StudentCreate) (t : Table) (s : StudentModel) :
  Store.get i t = Some s ->
  Store.email_taken_by_other (c_email p) i t = true ->
  update_student i p t = (Raise IntegrityError, t).
Proof.
  intros Hget Htaken. destruct (get_in _ _ _ Hget) as [_ Hid].
  unfold update_student, bind, Db.get. rewrite Hget.
  unfold Db.assign_commit, Store.update. now rewrite Hid, Htaken.
Qed.

Lemma delete_student_found (i : Z) (t : Table) (s : StudentModel) :
  Store.get i t = Some s ->
  delete_student i t = (Return tt, Store.delete i t).
Proof.
  intros Hget. destruct (get_in _ _ _ Hget) as [_ Hid].
  unfold delete_student, bind, Db.get. rewrite Hget.
  unfold Db.delete_commit. now rewrite Hid.
Qed.

Lemma in_delete (i : Z) (t : Table) (s : StudentModel) :
  In s (Store.delete i t) <-> In s t /\ id s <> i.
Proof.
  unfold Store.delete. rewrite filter_In, negb_true_iff, Z.eqb_neq. tauto.
Qed.

Lemma delete_drops_key (i : Z) (t : Table) : ~ In i (map id (Store.delete i t)).
Proof.
  rewrite in_map_iff. intros (s & Heq & Hin).
  apply in_delete in Hin. tauto.
Qed.

Lemma delete_length (i : Z) (t : Table) :
  ids_unique t -> In i (map id t) ->
  S (List.length (Store.delete i t)) = List.length t.
Proof.
  unfold ids_unique, Store.delete.
  induction t as [|a t IH]; simpl; [tauto|].
  intros Hnd Hin. inversion Hnd as [|x l Hx Hl]; subst.
  destruct (Z.eqb_spec (id a) i) as [E|E]; simpl.
  - f_equal. subst i. clear IH Hin Hnd Hl.
    induction t as [|b t IH]; simpl; [reflexivity|].
    simpl in Hx. destruct (Z.eqb_spec (id b) (id a)) as [E|E]; simpl.
    + exfalso. apply Hx. now left.
    + f_equal. apply IH. tauto.
  - f_equal. apply IH; [assumption|]. destruct Hin; [contradiction|assumption].
Qed.

Lemma run_reachable (qs : list Request) (t : Table) :
  reachable t -> reachable (run qs t).
Proof.
  revert t. induction qs as [|q qs IH]; intros t Hr; simpl; [assumption|].
  apply IH. now apply reachable_step.
Qed.




(** C6. When a stored row has key [i], deleting [i] succeeds, and reading
    [i] in the resulting table is answered with 404. *)
Theorem delete_then_get (t : Table) (i : Z) :
  In i (map id t) ->
  status (fst (serve (DELETE_student i) t)) = 204 /\
  fst (serve (GET_student i) (snd (serve (DELETE_student i) t))) = not_found.
Proof.
  intros Hin. destruct (get_some _ _ Hin) as (s & Hget & _).
  simpl. unfold route. rewrite (delete_student_found _ _ _ Hget). simpl.
  split; [reflexivity|].
  now rewrite (get_student_missing _ _ (get_none _ _ (delete_drops_key i t))).
Qed.

Lemma delete_then_get_witness :
  In 1 (map id two_students) /\
  status (fst (serve (DELETE_student 1) two_students)) = 204 /\
  fst (serve (GET_student 1) (snd (serve (DELETE_student 1) two_students)))
    = not_found.
Proof.
  assert (Hin : In 1 (map id two_students)).
  { vm_compute. tauto. }
  split; [exact Hin|]. exact (delete_then_get two_students 1 Hin).
Defined.

(** C7. When a stored row has key [i], deleting [i] is answered with 204
    and an empty body; the resulting table is the former one without the
    rows of key [i]: a row is in it exactly when it was stored and has
    another key, and, keys being distinct, it is one row shorter. *)
Theorem delete_removes_exactly (t : Table) (i : Z) :
  In i (map id t) ->
  serve (DELETE_student i) t = (mkResponse 204 Empty, Store.delete i t) /\
  (forall r, In r (snd (serve (DELETE_student i) t)) <-> In r t /\ id r <> i) /\
  (ids_unique t -> S (List.length (snd (serve (DELETE_student i) t))) = List.length t).
Proof.
  intros Hin. destruct (get_some _ _ Hin) as (s & Hget & _).
  assert (E : serve (DELETE_student i) t = (mkResponse 204 Empty, Store.delete i t)).
  { simpl. unfold route. now rewrite (delete_student_found _ _ _ Hget). }
  rewrite E. simpl. split; [reflexivity|]. split.
  - intros r. apply in_delete.
  - intros Hu. now apply delete_length.
Qed.

Lemma delete_removes_exactly_witness :
  In 1 (map id two_students) /\
  serve (DELETE_student 1) two_students
    = (mkResponse 204 Empty, Store.delete 1 two_students).
Proof.
  assert (Hin : In 1 (map id two_students)).
  { vm_compute. tauto. }
  split; [exact Hin|]. exact (proj1 (delete_removes_exactly two_students 1 Hin)).
Defined.

(** ** The two constraints of the table as invariants *)

Lemma NoDup_snoc {A} (l : list A) (a : A) :
  NoDup l -> ~ In a l -> NoDup (l ++ [a]).
Proof.
  intros Hl Ha. apply NoDup_app; [assumption|repeat constructor; auto|].
  intros x Hx [<-|[]]. contradiction.
Qed.

Lemma NoDup_map_filter {A B} (f : A -> B) (g : A -> bool) (l : list A) :
  NoDup (map f l) -> NoDup (map f (filter g l)).
Proof.
  induction l as [|a l IH]; simpl; [auto|].
  intros Hnd. inversion Hnd as [|x l' Hx Hl]; subst.
  destruct (g a); simpl; [|auto].
  constructor; [|auto].
  rewrite in_map_iff. intros (b & Heq & Hin). apply filter_In in Hin.
  apply Hx. rewrite <- Heq. apply in_map. tauto.
Qed.

Lemma NoDup_map_injective {A B} (f : A -> B) (l : list A) (x y : A) :
  NoDup (map f l) -> In x l -> In y l -> f x = f y -> x = y.
Proof.
  induction l as [|a l IH]; simpl; [tauto|].
  intros Hnd Hx Hy Heq. inversion Hnd as [|z l' Hz Hl]; subst.
  destruct Hx as [->|Hx], Hy as [->|Hy]; auto.
  - exfalso. apply Hz. rewrite Heq. now apply in_map.
  - exfalso. apply Hz. rewrite <- Heq. now apply in_map.
Qed.

Lemma insert_keeps_constraints (p : StudentCreate) (t : Table) :
  ~ In (c_email p) (map email t) ->
  ids_unique t -> emails_unique t ->
  ids_unique (t ++ [new_row p t]) /\ emails_unique (t ++ [new_row p t]).
Proof.
  unfold ids_unique, emails_unique. intros Hn Hi He.
  rewrite !map_app. simpl. split; apply NoDup_snoc; auto using next_id_fresh.
Qed.

Lemma update_keeps_ids (i : Z) (p : StudentCreate) (t : Table) :
  map id (map (fun r => if id r =? i then Store.set_fields p r else r) t)
    = map id t.
Proof.
  rewrite map_map. apply map_ext. intros r. now destruct (id r =? i).
Qed.

Lemma update_no_row (i : Z) (p : StudentCreate) (t : Table) :
  ~ In i (map id t) ->
  map (fun r => if id r =? i then Store.set_fields p r else r) t = t.
Proof.
  induction t as [|a t IH]; simpl; [reflexivity|].
  intros Hn. destruct (Z.eqb_spec (id a) i) as [E|E]; [tauto|].
  f_equal. apply IH. tauto.
Qed.

Lemma update_emails (i : Z) (p : StudentCreate) (t : Table) (e : string) :
  In e (map email (map (fun r => if id r =? i then Store.set_fields p r else r) t)) ->
  e = c_email p \/ In e (map email t).
Proof.
  rewrite map_map, !in_map_iff. intros (r & Heq & Hin).
  destruct (id r =? i); simpl in Heq; [now left|].
  right. now exists r.
Qed.

Lemma update_keeps_emails (i : Z) (p : StudentCreate) (t : Table) :
  Store.email_taken_by_other (c_email p) i t = false ->
  ids_unique t -> emails_unique t ->
  emails_unique (map (fun r => if id r =? i then Store.set_fields p r else r) t).
Proof.
  unfold ids_unique, emails_unique, Store.email_taken_by_other.
  induction t as [|a t IH]; simpl; [auto|].
  intros Hfree Hi He.
  apply orb_false_iff in Hfree. destruct Hfree as [Ha Hfree].
  inversion Hi as [|x l Hix Hil]; subst.
  inversion He as [|x l Hex Hel]; subst.
  destruct (Z.eqb_spec (id a) i) as [E|E]; simpl.
  - subst i. rewrite (update_no_row _ _ _ Hix).
    constructor; [|assumption].
    rewrite in_map_iff. intros (r & Heq & Hin).
    refine (email_taken_false_inv _ _ _ r Hfree Hin _ Heq).
    intros Hid. apply Hix. rewrite <- Hid. now apply in_map.
  - constructor; [|now apply IH].
    intros Hin. apply update_emails in Hin. destruct Hin as [Heq|Hin]; [|tauto].
    simpl in Ha.
    apply String.eqb_neq in Ha. contradiction.
Qed.

(** What a request can do to the table: nothing, append the row of an
    accepted INSERT, rewrite the rows of one key after an accepted UPDATE,
    or drop the rows of one key. *)
Lemma serve_table (q : Request) (t : Table) :
  snd (serve q t) = t \/
  (exists p, ~ In (c_email p) (map email t) /\
             snd (serve q t) = t ++ [new_row p t]) \/
  (exists i p, Store.email_taken_by_other (c_email p) i t = false /\
               snd (serve q t)
                 = map (fun r => if id r =? i then Store.set_fields p r else r) t) \/
  (exists i, snd (serve q t) = Store.delete i t).
Proof.
  destruct q as [p| |i|i p|i]; simpl; unfold route.
  - destruct (in_dec string_dec (c_email p) (map email t)) as [Hin|Hn].
    + rewrite (create_student_taken _ _ Hin). now left.
    + rewrite (create_student_fresh _ _ Hn). right; left. now exists p.
  - now left.
  - unfold get_student, bind, Db.get. destruct (Store.get i t); now left.
  - destruct (Store.get i t) as [s|] eqn:Hget.
    + destruct (Store.email_taken_by_other (c_email p) i t) eqn:Hf.
      * rewrite (update_student_clash _ _ _ _ Hget Hf). now left.
      * rewrite (update_student_found _ _ _ _ Hget Hf).
        right; right; left. now exists i, p.
    + unfold update_student, bind, Db.get. rewrite Hget. now left.
  - destruct (Store.get i t) as [s|] eqn:Hget.
    + rewrite (delete_student_found _ _ _ Hget). right; right; right. now exists i.
    + unfold delete_student, bind, Db.get. rewrite Hget. now left.
Qed.

Lemma serve_keeps_constraints (q : Request) (t : Table) :
  ids_unique t -> emails_unique t ->
  ids_unique (snd (serve q t)) /\ emails_unique (snd (serve q t)).
Proof.
  intros Hi He.
  destruct (serve_table q t)
    as [-> | [(p & Hn & ->) | [(i & p & Hf & ->) | (i & ->)]]].
  - now split.
  - now apply insert_keeps_constraints.
  - split; [|now apply update_keeps_emails].
    unfold ids_unique. now rewrite update_keeps_ids.
  - split; apply NoDup_map_filter; assumption.
Qed.

Lemma reachable_constraints (t : Table) :
  reachable t -> ids_unique t /\ emails_unique t.
Proof.
  induction 1 as [|q t Hr [Hi He]].
  - split; constructor.
  - now apply serve_keeps_constraints.
Qed.

(** C1. In every table reachable from the empty one, the emails of the
    stored rows are pairwise distinct, so that two stored rows with the
    same email are the same row; and every request, served on a table that
    satisfies its two constraints, leaves a table whose emails are again
    pairwise distinct. *)
Theorem email_uniqueness_invariant :
  (forall t, reachable t -> emails_unique t) /\
  (forall t r1 r2, reachable t ->
     In r1 t -> In r2 t -> email r1 = email r2 -> r1 = r2) /\
  (forall q t, ids_unique t -> emails_unique t ->
     emails_unique (snd (serve q t))).
Proof.
  split; [|split].
  - intros t Hr. now apply reachable_constraints.
  - intros t r1 r2 Hr. apply NoDup_map_injective.
    now apply reachable_constraints.
  - intros q t Hi He. now apply serve_keeps_constraints.
Qed.

Lemma email_uniqueness_invariant_witness :
  emails_unique two_students /\
  emails_unique (snd (serve (PUT_student 2 bob_as_ada) two_students)).
Proof.
  pose proof (run_reachable [POST_students ada; POST_students bob] []
                reachable_empty) as Hr.
  destruct email_uniqueness_invariant as (H1 & _ & H3).
  split.
  - exact (H1 two_students Hr).
  - apply H3.
    + vm_compute. repeat constructor; simpl; intuition discriminate.
    + exact (H1 two_students Hr).
Defined.

(** C10. In every table reachable from the empty one the keys of the
    stored rows are pairwise distinct; and whenever creation is answered
    with 201, the key of the returned record is the key of no row stored
    before and of a row stored after. *)
Theorem id_uniqueness_and_freshness :
  (forall t, reachable t -> ids_unique t) /\
  (forall t p s,
     fst (serve (POST_students p) t) = mkResponse 201 (One s) ->
     ~ In (r_id s) (map id t) /\
     In (r_id s) (map id (snd (serve (POST_students p) t)))).
Proof.
  split.
  - intros t Hr. now apply reachable_constraints.
  - intros t p s. simpl. unfold route.
    destruct (in_dec string_dec (c_email p) (map email t)) as [Hin|Hn].
    + rewrite (create_student_taken _ _ Hin). discriminate.
    + rewrite (create_student_fresh _ _ Hn). simpl. intros [= <-]. simpl.
      split; [apply next_id_fresh|].
      rewrite map_app. apply in_or_app. right. now left.
Qed.

Lemma id_uniqueness_and_freshness_witness :
  ids_unique two_students /\
  ~ In 3 (map id two_students) /\
  In 3 (map id (snd (serve (POST_students cy) two_students))).
Proof.
  destruct id_uniqueness_and_freshness as (H1 & H2).
  split.
  - apply H1. apply run_reachable, reachable_empty.
  - apply (H2 two_students cy (mkStudentRead "Cy" "Young" "cy@example.com" None 3)).
    vm_compute. reflexivity.
Defined.

(** ** Creating a batch of students *)

Lemma fields_of_new_row (p : StudentCreate) (t : Table) :
  fields_of (new_row p t) = p.
Proof. now destruct p. Qed.

Lemma run_creates (ps : list StudentCreate) (t : Table) :
  NoDup (map email t ++ map c_email ps) ->
  exists rows,
    run (map POST_students ps) t = t ++ rows /\ map fields_of rows = ps.
Proof.
  revert t. induction ps as [|p ps IH]; intros t Hnd; simpl.
  - exists []. now rewrite app_nil_r.
  - simpl in Hnd.
    assert (Hn : ~ In (c_email p) (map email t)).
    { intros Hin. apply (NoDup_remove_2 _ _ _ Hnd). apply in_or_app. now left. }
    unfold route. rewrite (create_student_fresh _ _ Hn). simpl.
    destruct (IH (t ++ [new_row p t])) as (rows & Hrun & Hf).
    { rewrite map_app, <- app_assoc. exact Hnd. }
    exists (new_row p t :: rows). split.
    + fold (run (map POST_students ps) (t ++ [new_row p t])).
      rewrite Hrun, <- app_assoc. reflexivity.
    + simpl. now rewrite fields_of_new_row, Hf.
Qed.

(** C8. After the students of a list with pairwise distinct emails have
    been created, one after the other, in the empty store, listing is
    answered with 200 and exactly as many records as were created, they
    carry the submitted fields in the order of creation, and reading the
    key of any listed record is answered with 200 and that record. *)
Theorem list_after_creates (ps : list StudentCreate) :
  NoDup (map c_email ps) ->
  let t := run (map POST_students ps) [] in
  exists rs,
    serve GET_students t = (mkResponse 200 (Many rs), t) /\
    List.length rs = List.length ps /\
    map (fun r => mkStudentCreate (r_first_name r) (r_last_name r)
                                  (r_email r) (r_dob r)) rs = ps /\
    (forall r, In r rs ->
       serve (GET_student (r_id r)) t = (mkResponse 200 (One r), t)).
Proof.
  intros Hnd t.
  destruct (run_creates ps [] Hnd) as (rows & Hrun & Hf). simpl in Hrun.
  assert (Hu : ids_unique t).
  { apply reachable_constraints, run_reachable, reachable_empty. }
  exists (map from_orm t). split; [reflexivity|].
  fold t in Hrun. rewrite Hrun in *. split; [|split].
  - rewrite length_map, <- Hf. now rewrite length_map.
  - rewrite map_map. exact Hf.
  - intros r Hin. apply in_map_iff in Hin. destruct Hin as (s & <- & Hin).
    simpl. unfold route.
    now rewrite (get_student_found _ _ _ (get_unique _ _ Hu Hin)).
Qed.

Lemma list_after_creates_witness :
  exists rs,
    serve GET_students two_students = (mkResponse 200 (Many rs), two_students) /\
    List.length rs = 2%nat /\
    map (fun r => mkStudentCreate (r_first_name r) (r_last_name r)
                                  (r_email r) (r_dob r)) rs = [ada; bob] /\
    (forall r, In r rs ->
       serve (GET_student (r_id r)) two_students
         = (mkResponse 200 (One r), two_students)).
Proof.
  apply (list_after_creates [ada; bob]).
  simpl. repeat constructor; simpl; intuition discriminate.
Defined.

(** ** Validation *)

Lemma validate_invalid `{Parsers} (b : RawBody) :
  invalid_body b -> validate b = None.
Proof.
  unfold invalid_body, validate.
  intros [E|[E|[E|(e & E & Hp)]]]; rewrite E.
  - reflexivity.
  - now destruct (raw_first_name b).
  - now destruct (raw_first_name b), (raw_last_name b).
  - rewrite Hp. now destruct (raw_first_name b), (raw_last_name b).
Qed.

(** C9. A creation or an update whose body lacks [first_name],
    [last_name] or [email], or carries a malformed email, is answered with
    422 whatever the table holds, and the table is left exactly as it
    was. *)
Theorem invalid_body_unprocessable `{Parsers} (b : RawBody) (i : Z) (t : Table) :
  invalid_body b ->
  status unprocessable = 422 /\
  app (RawPOST_students b) t = (unprocessable, t) /\
  app (RawPUT_student i b) t = (unprocessable, t).
Proof.
  intros Hb. simpl. rewrite (validate_invalid b Hb). auto.
Qed.

Lemma invalid_body_unprocessable_witness :
  @app sample_parsers (RawPOST_students nameless_body) two_students
    = (unprocessable, two_students) /\
  @app sample_parsers (RawPUT_student 1 nameless_body) two_students
    = (unprocessable, two_students).
Proof.
  apply (@invalid_body_unprocessable sample_parsers nameless_body 1 two_students).
  right; left. reflexivity.
Defined.

(** ** The walk-through of the specification

    Create Ada: 201 with key 1. Create with the same email and another
    name: 400. Read 1: 200 with Ada's record. Delete 1: 204. Read 1: 404. *)
Example walk_through :
  let ada_read := mkStudentRead "Ada" "Lovelace" "ada@example.com" None 1 in
  let ada_row := mkStudentModel 1 "Ada" "Lovelace" "ada@example.com" None in
  let other := mkStudentCreate "Augusta" "King" "ada@example.com" None in
  serve (POST_students ada) [] = (mkResponse 201 (One ada_read), [ada_row]) /\
  serve (POST_students other) [ada_row]
    = (mkResponse 400 (Detail "Email already registered"), [ada_row]) /\
  serve (GET_student 1) [ada_row] = (mkResponse 200 (One ada_read), [ada_row]) /\
  serve (DELETE_student 1) [ada_row] = (mkResponse 204 Empty, []) /\
  serve (GET_student 1) [] = (not_found, []).
Proof. vm_compute. repeat split. Qed.

(** A key freed by deleting the last row is given out again. *)
Example key_reused_after_delete :
  run [POST_students ada; DELETE_student 1; POST_students bob] []
    = [mkStudentModel 1 "Bob" "Stone" "bob@example.com" (Some (mkDate 2001 2 3))].
Proof. vm_compute. reflexivity. Qed.

(** ** Each route as a function of what the store holds *)

Lemma get_none_inv (i : Z) (t : Table) :
  Store.get i t = None -> ~ In i (map id t).
Proof.
  intros E Hin. destruct (get_some _ _ Hin) as (s & Hs & _). congruence.
Qed.


Lemma serve_post (p : StudentCreate) (t : Table) :
  serve (POST_students p) t =
    if in_dec string_dec (c_email p) (map email t)
    then (mkResponse 400 (Detail "Email already registered"), t)
    else (mkResponse 201 (One (from_orm (new_row p t))), t ++ [new_row p t]).
Proof.
  simpl. unfold route.
  destruct (in_dec string_dec (c_email p) (map email t)) as [Hin|Hn].
  - now rewrite (create_student_taken _ _ Hin).
  - now rewrite (create_student_fresh _ _ Hn).
Qed.

Lemma serve_get (i : Z) (t : Table) :
  serve (GET_student i) t =
    (match Store.get i t with Some s => ok_one s | None => not_found end, t).
Proof.
  simpl. unfold route, get_student, bind, Db.get.
  now destruct (Store.get i t).
Qed.

Lemma serve_put (i : Z) (p : StudentCreate) (t : Table) :
  serve (PUT_student i p) t =
    match Store.get i t with
    | None => (not_found, t)
    | Some s =>
        if Store.email_taken_by_other (c_email p) i t
        then (internal_error, t)
        else (ok_one (Store.set_fields p s), map (rewrite_row i p) t)
    end.
Proof.
  simpl. unfold route.
  destruct (Store.get i t) as [s|] eqn:Hget.
  - destruct (Store.email_taken_by_other (c_email p) i t) eqn:Hf.
    + now rewrite (update_student_clash _ _ _ _ Hget Hf).
    + now rewrite (update_student_found _ _ _ _ Hget Hf).
  - unfold update_student, bind, Db.get. now rewrite Hget.
Qed.

Lemma serve_delete (i : Z) (t : Table) :
  serve (DELETE_student i) t =
    match Store.get i t with
    | None => (not_found, t)
    | Some _ => (mkResponse 204 Empty, Store.delete i t)
    end.
Proof.
  simpl. unfold route.
  destruct (Store.get i t) as [s|] eqn:Hget.
  - now rewrite (delete_student_found _ _ _ Hget).
  - unfold delete_student, bind, Db.get. now rewrite Hget.
Qed.



(** X2. A request answered with an error status (400 and above) leaves the
    table exactly as it was, whatever the route; and the two reading
    routes leave it as it was whatever they answer. *)
Theorem errors_and_reads_change_nothing :
  (forall q t, 400 <= status (fst (serve q t)) -> snd (serve q t) = t) /\
  (forall t, snd (serve GET_students t) = t) /\
  (forall i t, snd (serve (GET_student i) t) = t).
Proof.
  split; [|split].
  - intros [p| |i|i p|i] t.
    + rewrite serve_post. destruct (in_dec _ _ _); simpl; [auto|lia].
    + reflexivity.
    + rewrite serve_get. reflexivity.
    + rewrite serve_put. destruct (Store.get i t); [|reflexivity].
      destruct (Store.email_taken_by_other _ _ _); simpl; [auto|lia].
    + rewrite serve_delete. destruct (Store.get i t); simpl; [lia|auto].
  - reflexivity.
  - intros i t. now rewrite serve_get.
Qed.

Lemma errors_and_reads_change_nothing_witness :
  400 <= status (fst (serve (PUT_student 2 bob_as_ada) two_students)) /\
  snd (serve (PUT_student 2 bob_as_ada) two_students) = two_students.
Proof.
  assert (H : 400 <= status (fst (serve (PUT_student 2 bob_as_ada) two_students))).
  { vm_compute. discriminate. }
  split; [exact H|].
  exact (proj1 errors_and_reads_change_nothing _ two_students H).
Defined.



(** X5. An update never changes which keys are stored, their number or
    their order, whatever it is answered with. *)
Theorem update_keeps_keys (t : Table) (i : Z) (p : StudentCreate) :
  map id (snd (serve (PUT_student i p) t)) = map id t.
Proof.
  rewrite serve_put. destruct (Store.get i t); [|reflexivity].
  destruct (Store.email_taken_by_other _ _ _); [reflexivity|].
  apply update_keeps_ids.
Qed.



(** ** Keys along the storage order *)

Lemma StronglySorted_snoc (l : list Z) (a : Z) :
  StronglySorted Z.lt l -> (forall x, In x l -> x < a) ->
  StronglySorted Z.lt (l ++ [a]).
Proof.
  induction 1 as [|b l Hs IH Hb]; intros Hlt; simpl.
  - repeat constructor.
  - constructor.
    + apply IH. intros x Hx. apply Hlt. now right.
    + apply Forall_app. split; [assumption|].
      constructor; [|constructor]. apply Hlt. now left.
Qed.

Lemma StronglySorted_map_filter (g : StudentModel -> bool) (t : Table) :
  StronglySorted Z.lt (map id t) ->
  StronglySorted Z.lt (map id (filter g t)).
Proof.
  induction t as [|a t IH]; simpl; [auto|].
  intros Hs. apply StronglySorted_inv in Hs. destruct Hs as [Hs Ha].
  destruct (g a); simpl; [|auto].
  constructor; [auto|].
  rewrite Forall_forall in *. intros x Hx. apply Ha.
  apply in_map_iff in Hx. destruct Hx as (r & <- & Hr).
  apply filter_In in Hr. apply in_map. tauto.
Qed.

Lemma next_id_positive (t : Table) :
  Forall (fun s => 1 <= id s) t -> 1 <= Store.next_id t.
Proof.
  destruct t as [|a t]; [vm_compute; discriminate|].
  intros Hf. apply Forall_inv in Hf.
  pose proof (next_id_above (a :: t) a (or_introl eq_refl)). lia.
Qed.

Lemma serve_keeps_ascending (q : Request) (t : Table) :
  keys_ascending t /\ Forall (fun s => 1 <= id s) t ->
  keys_ascending (snd (serve q t)) /\
  Forall (fun s => 1 <= id s) (snd (serve q t)).
Proof.
  unfold keys_ascending. intros [Hs Hp].
  destruct (serve_table q t)
    as [-> | [(p & Hn & ->) | [(i & p & Hf & ->) | (i & ->)]]].
  - now split.
  - split.
    + rewrite map_app. apply StronglySorted_snoc; [assumption|].
      intros x Hx. apply in_map_iff in Hx. destruct Hx as (r & <- & Hr).
      now apply next_id_above.
    + apply Forall_app. split; [assumption|].
      constructor; [|constructor]. simpl. now apply next_id_positive.
  - split.
    + now rewrite update_keeps_ids.
    + rewrite Forall_forall in *. intros r Hr.
      apply in_map_iff in Hr. destruct Hr as (r0 & <- & Hr0).
      specialize (Hp r0 Hr0). now destruct (id r0 =? i).
  - split.
    + now apply StronglySorted_map_filter.
    + rewrite Forall_forall in *. intros r Hr. apply Hp.
      apply in_delete in Hr. tauto.
Qed.

Lemma reachable_ascending (t : Table) :
  reachable t -> keys_ascending t /\ Forall (fun s => 1 <= id s) t.
Proof.
  induction 1 as [|q t Hr IH].
  - split; constructor.
  - now apply serve_keeps_ascending.
Qed.

(** ** What a write leaves alone *)

Lemma get_app_old (i : Z) (t l : Table) :
  In i (map id t) -> Store.get i (t ++ l) = Store.get i t.
Proof.
  unfold Store.get. induction t as [|a t IH]; simpl; [tauto|].
  intros [E|Hin].
  - apply Z.eqb_eq in E. now rewrite E.
  - destruct (id a =? i); [reflexivity|]. now apply IH.
Qed.

Lemma get_update_other (i j : Z) (p : StudentCreate) (t : Table) :
  j <> i -> Store.get j (map (rewrite_row i p) t) = Store.get j t.
Proof.
  intros Hne. unfold Store.get, rewrite_row.
  induction t as [|a t IH]; simpl; [reflexivity|].
  destruct (Z.eqb_spec (id a) i) as [E|E]; simpl.
  - destruct (Z.eqb_spec (id a) j) as [E'|E']; [congruence|assumption].
  - destruct (id a =? j); [reflexivity|assumption].
Qed.

Lemma get_delete_other (i j : Z) (t : Table) :
  j <> i -> Store.get j (Store.delete i t) = Store.get j t.
Proof.
  intros Hne. unfold Store.get, Store.delete.
  induction t as [|a t IH]; simpl; [reflexivity|].
  destruct (Z.eqb_spec (id a) i) as [E|E]; simpl.
  - destruct (Z.eqb_spec (id a) j) as [E'|E']; [congruence|assumption].
  - destruct (id a =? j); [reflexivity|assumption].
Qed.

(** X9. A creation, whatever it is answered with, leaves every stored
    record as it was: reading a key that was stored before gives the same
    answer after. *)
Theorem create_keeps_existing_records
    (t : Table) (p : StudentCreate) (i : Z) :
  In i (map id t) ->
  fst (serve (GET_student i) (snd (serve (POST_students p) t)))
    = fst (serve (GET_student i) t).
Proof.
  intros Hin. rewrite serve_post.
  destruct (in_dec _ _ _); simpl snd; [reflexivity|].
  rewrite !serve_get. simpl. now rewrite get_app_old.
Qed.

Lemma create_keeps_existing_records_witness :
  fst (serve (GET_student 1) (snd (serve (POST_students cy) two_students)))
    = fst (serve (GET_student 1) two_students).
Proof.
  apply (create_keeps_existing_records two_students cy 1).
  vm_compute. tauto.
Defined.

(** X10. An update or a deletion of one key, whatever it is answered with,
    leaves the records of all other keys as they were: reading another key
    gives the same answer before and after. *)
Theorem write_keeps_other_records
    (t : Table) (p : StudentCreate) (i j : Z) :
  j <> i ->
  fst (serve (GET_student j) (snd (serve (PUT_student i p) t)))
    = fst (serve (GET_student j) t) /\
  fst (serve (GET_student j) (snd (serve (DELETE_student i) t)))
    = fst (serve (GET_student j) t).
Proof.
  intros Hne. split.
  - rewrite serve_put. destruct (Store.get i t); [|reflexivity].
    destruct (Store.email_taken_by_other _ _ _); simpl snd; [reflexivity|].
    rewrite !serve_get. simpl. now rewrite get_update_other.
  - rewrite serve_delete. destruct (Store.get i t); simpl snd; [|reflexivity].
    rewrite !serve_get. simpl. now rewrite get_delete_other.
Qed.

Lemma write_keeps_other_records_witness :
  fst (serve (GET_student 1) (snd (serve (PUT_student 2 bob_new_dob) two_students)))
    = fst (serve (GET_student 1) two_students) /\
  fst (serve (GET_student 1) (snd (serve (DELETE_student 2) two_students)))
    = fst (serve (GET_student 1) two_students).
Proof.
  apply (write_keeps_other_records two_students bob_new_dob 2 1).
  discriminate.
Defined.

(** X11. Listing and reading agree: in a table whose keys are pairwise
    distinct, a record is in the list exactly when reading its key is
    answered with 200 and that record. *)
Theorem list_agrees_with_get (t : Table) :
  ids_unique t ->
  exists rs,
    serve GET_students t = (mkResponse 200 (Many rs), t) /\
    (forall r, In r rs <->
               fst (serve (GET_student (r_id r)) t) = mkResponse 200 (One r)).
Proof.
  intros Hu. exists (map from_orm t). split; [reflexivity|].
  intros r. rewrite serve_get. simpl. split.
  - intros Hin. apply in_map_iff in Hin. destruct Hin as (s & <- & Hin).
    simpl. now rewrite (get_unique _ _ Hu Hin).
  - destruct (Store.get (r_id r) t) as [s|] eqn:Hget; [|discriminate].
    unfold ok_one. intros [= <-].
    apply in_map. now apply (get_in _ _ _ Hget).
Qed.

Lemma list_agrees_with_get_witness :
  exists rs,
    serve GET_students two_students = (mkResponse 200 (Many rs), two_students) /\
    (forall r, In r rs <->
               fst (serve (GET_student (r_id r)) two_students)
                 = mkResponse 200 (One r)).
Proof.
  apply (list_agrees_with_get two_students).
  vm_compute. repeat constructor; simpl; intuition discriminate.
Defined.

(** ** The handlers behind the binding of the key *)

Lemma handle_get (i : Z) (t : Table) :
  handle (GET_student i) t =
    if key_in_range i then serve (GET_student i) t else (internal_error, t).
Proof.
  simpl. unfold route, bound, bind, Db.bind_key.
  now destruct (key_in_range i).
Qed.

Lemma handle_put (i : Z) (p : StudentCreate) (t : Table) :
  handle (PUT_student i p) t =
    if key_in_range i then serve (PUT_student i p) t else (internal_error, t).
Proof.
  simpl. unfold route, bound, bind, Db.bind_key.
  now destruct (key_in_range i).
Qed.

Lemma handle_delete (i : Z) (t : Table) :
  handle (DELETE_student i) t =
    if key_in_range i then serve (DELETE_student i) t else (internal_error, t).
Proof.
  simpl. unfold route, bound, bind, Db.bind_key.
  now destruct (key_in_range i).
Qed.

(** C4. The code departs from the claim at a key the driver cannot bind.
    In the table reached by creating Ada and then Bob no row has the key
    2^63; reading, updating and deleting that key are each answered with
    500, where the claim says 404. The table is left as it was. *)
Theorem missing_id_out_of_range :
  ~ In huge_id (map id two_students) /\
  handle (GET_student huge_id) two_students = (internal_error, two_students) /\
  handle (PUT_student huge_id cy) two_students = (internal_error, two_students) /\
  handle (DELETE_student huge_id) two_students = (internal_error, two_students).
Proof.
  split; [vm_compute; intuition discriminate|].
  rewrite handle_get, handle_put, handle_delete.
  repeat split.
Qed.

(** X14. For a key within the signed 64-bit range that no stored row has,
    reading, updating and deleting are each answered with 404 and leave
    the table exactly as it was. *)
Theorem missing_id_in_range_not_found (t : Table) (i : Z) (p : StudentCreate) :
  key_in_range i = true ->
  ~ In i (map id t) ->
  handle (GET_student i) t = (not_found, t) /\
  handle (PUT_student i p) t = (not_found, t) /\
  handle (DELETE_student i) t = (not_found, t).
Proof.
  intros Hr Hn. rewrite handle_get, handle_put, handle_delete, Hr.
  now apply serve_missing_id.
Qed.

Lemma missing_id_in_range_not_found_witness :
  key_in_range 7 = true /\
  ~ In 7 (map id two_students) /\
  handle (GET_student 7) two_students = (not_found, two_students) /\
  handle (PUT_student 7 cy) two_students = (not_found, two_students) /\
  handle (DELETE_student 7) two_students = (not_found, two_students).
Proof.
  assert (Hn : ~ In 7 (map id two_students)).
  { vm_compute. intuition discriminate. }
  split; [reflexivity|]. split; [exact Hn|].
  exact (missing_id_in_range_not_found two_students 7 cy eq_refl Hn).
Defined.




(** X6. Deleting the same key twice: whatever the first deletion is
    answered with, the second changes nothing, and it is answered with 404
    when the key is within the signed 64-bit range and with 500
    otherwise. *)
Theorem delete_twice (t : Table) (i : Z) :
  handle (DELETE_student i) (snd (handle (DELETE_student i) t))
    = (if key_in_range i then not_found else internal_error,
       snd (handle (DELETE_student i) t)).
Proof.
  rewrite !handle_delete. destruct (key_in_range i); [|reflexivity].
  assert (Hn : ~ In i (map id (snd (serve (DELETE_student i) t)))).
  { rewrite serve_delete. destruct (Store.get i t) eqn:Hget; simpl.
    - apply delete_drops_key.
    - now apply get_none_inv. }
  rewrite (serve_delete i (snd _)). now rewrite (get_none _ _ Hn).
Qed.

Lemma max_id_attained (t : Table) (m : Z) :
  Store.max_id t = Some m -> exists r, In r t /\ id r = m.
Proof.
  revert m. induction t as [|a t IH]; simpl; [discriminate|].
  intros m. destruct (Store.max_id t) as [m'|].
  - intros [= <-]. destruct (IH m' eq_refl) as (r & Hr & Hid).
    destruct (Z.max_spec (id a) m') as [[_ ->]|[_ ->]]; eauto.
  - intros [= <-]. eauto.
Qed.

(** X8. In every table reachable from the empty one, keys are at least 1
    and grow strictly along the storage order, so that listing returns the
    records by ascending key. And in any table whose keys are all below
    the largest key there is, the key given to a created record is larger
    than every key stored at that time and is itself a key of the
    store. *)
Theorem keys_positive_and_ascending :
  (forall t, reachable t ->
     exists rs,
       fst (handle GET_students t) = mkResponse 200 (Many rs) /\
       StronglySorted Z.lt (map r_id rs) /\
       Forall (fun r => 1 <= r_id r) rs) /\
  (forall t p s,
     below_top_key t ->
     fst (handle (POST_students p) t) = mkResponse 201 (One s) ->
     r_id s <= max_rowid /\ forall r, In r t -> id r < r_id s).
Proof.
  split.
  - intros t Hr. destruct (reachable_ascending t Hr) as [Hs Hp].
    exists (map from_orm t). split; [reflexivity|]. split.
    + rewrite map_map. exact Hs.
    + rewrite Forall_forall in *. intros r Hin.
      apply in_map_iff in Hin. destruct Hin as (s & <- & Hin).
      exact (Hp s Hin).
  - intros t p s Hb. unfold handle. rewrite serve_post.
    destruct (in_dec _ _ _); simpl; [discriminate|].
    intros [= <-]. simpl. split; [|intros r Hin; now apply next_id_above].
    unfold Store.next_id. destruct (Store.max_id t) as [m|] eqn:Hm.
    + destruct (max_id_attained t m Hm) as (r & Hr & <-).
      specialize (Hb r Hr). lia.
    + vm_compute. discriminate.
Qed.

Lemma keys_positive_and_ascending_witness :
  (exists rs,
     fst (handle GET_students two_students) = mkResponse 200 (Many rs) /\
     StronglySorted Z.lt (map r_id rs) /\
     Forall (fun r => 1 <= r_id r) rs) /\
  (3 <= max_rowid /\ forall r, In r two_students -> id r < 3).
Proof.
  destruct keys_positive_and_ascending as [H1 H2]. split.
  - apply (H1 two_students). apply run_reachable, reachable_empty.
  - apply (H2 two_students cy (mkStudentRead "Cy" "Young" "cy@example.com" None 3)).
    + intros r Hin. vm_compute in Hin.
      destruct Hin as [<-|[<-|[]]]; reflexivity.
    + vm_compute. reflexivity.
Defined.
